(** * SIRIUS filter generators: a shallow embedding of
      [src/python/filter/generators.py] and the properties of its kernels.

    Numeric convention.  The program computes with IEEE double precision
    numbers (numpy [float64] and Python [float]).  They are embedded as the
    type [float64] below: a finite value is a real number and the arithmetic
    on finite values is exact (no rounding, no overflow, one unsigned zero);
    the special values of IEEE arithmetic, the two infinities and NaN, are
    kept, because the program can produce them (numpy divides by zero
    without raising).  Python integers are [Z]. *)

From Stdlib Require Import Reals Lra Lia ZArith List Bool Arith.
From Stdlib Require String.
Import ListNotations.

Open Scope R_scope.

(** ** Python outcomes: a call returns a value or raises an exception *)

Inductive exn : Type :=
| ValueError          (* raised by [np.linspace] on a negative sample count *)
| ZeroDivisionError.  (* raised by Python's own float division *)

Inductive outcome (A : Type) : Type :=
| Returns (a : A)
| Raises (e : exn).

Arguments Returns {A} a.
Arguments Raises {A} e.

Definition bind {A B : Type} (c : outcome A) (k : A -> outcome B) : outcome B :=
  match c with
  | Returns a => k a
  | Raises e => Raises e
  end.

Notation "x <- c ;; k" := (bind c (fun x => k))
  (at level 61, c at next level, right associativity).

(** ** Double precision numbers *)

Definition Rltb (x y : R) : bool := if Rlt_dec x y then true else false.
Definition Rleb (x y : R) : bool := if Rle_dec x y then true else false.
Definition Reqb (x y : R) : bool := if Req_dec_T x y then true else false.

Inductive float64 : Type :=
| Fin (r : R)          (* a finite number *)
| Inf (negative : bool) (* +inf (false) and -inf (true) *)
| NaN.

Definition of_int (z : Z) : float64 := Fin (IZR z).

Definition fneg (x : float64) : float64 :=
  match x with
  | Fin r => Fin (- r)
  | Inf s => Inf (negb s)
  | NaN => NaN
  end.

Definition fabs (x : float64) : float64 :=
  match x with
  | Fin r => Fin (Rabs r)
  | Inf _ => Inf false
  | NaN => NaN
  end.

Definition fadd (x y : float64) : float64 :=
  match x, y with
  | Fin a, Fin b => Fin (a + b)
  | Fin _, Inf s => Inf s
  | Inf s, Fin _ => Inf s
  | Inf s, Inf t => if Bool.eqb s t then Inf s else NaN
  | _, _ => NaN
  end.

Definition fsub (x y : float64) : float64 := fadd x (fneg y).

(** A finite number times an infinity: NaN for zero, else the signed infinity. *)
Definition scale_inf (a : R) (s : bool) : float64 :=
  if Reqb a 0 then NaN else Inf (xorb (Rltb a 0) s).

Definition fmul (x y : float64) : float64 :=
  match x, y with
  | Fin a, Fin b => Fin (a * b)
  | Fin a, Inf s => scale_inf a s
  | Inf s, Fin a => scale_inf a s
  | Inf s, Inf t => Inf (xorb s t)
  | _, _ => NaN
  end.

(** Division as numpy does it: a zero divisor gives an infinity or NaN (with a
    warning only), never an exception. *)
Definition fdiv (x y : float64) : float64 :=
  match x, y with
  | Fin a, Fin b =>
      if Reqb b 0 then (if Reqb a 0 then NaN else Inf (Rltb a 0))
      else Fin (a / b)
  | Fin _, Inf _ => Fin 0
  | Inf s, Fin b => Inf (xorb s (Rltb b 0))
  | _, _ => NaN
  end.

(** Division of Python floats: a zero divisor raises. *)
Definition py_div (x y : float64) : outcome float64 :=
  match y with
  | Fin b => if Reqb b 0 then Raises ZeroDivisionError else Returns (fdiv x y)
  | _ => Returns (fdiv x y)
  end.

(** Comparisons: every comparison with NaN is false. *)
Definition flt (x y : float64) : bool :=
  match x, y with
  | Fin a, Fin b => Rltb a b
  | Fin _, Inf s => negb s
  | Inf s, Fin _ => s
  | Inf s, Inf t => s && negb t
  | _, _ => false
  end.

Definition fle (x y : float64) : bool :=
  match x, y with
  | Fin a, Fin b => Rleb a b
  | Fin _, Inf s => negb s
  | Inf s, Fin _ => s
  | Inf s, Inf t => s || negb t
  | _, _ => false
  end.


(** [np.sinc]: sin(pi x)/(pi x).  numpy evaluates it at 1e-20 instead of 0,
    where the quotient is 1.0 in double precision. *)
Definition sinc (x : R) : R :=
  if Req_dec_T x 0 then 1 else sin (PI * x) / (PI * x).

Definition np_sinc (x : float64) : float64 :=
  match x with
  | Fin r => Fin (sinc r)
  | _ => NaN
  end.

Definition np_exp (x : float64) : float64 :=
  match x with
  | Fin r => Fin (exp r)
  | Inf false => Inf false
  | Inf true => Fin 0
  | NaN => NaN
  end.

Definition np_pi : float64 := Fin PI.

(** [np.sum] of the elements of an array; 0.0 for an empty one. *)
Definition np_sum (l : list float64) : float64 :=
  fold_right fadd (Fin 0) l.

(** ** Arrays *)

Definition ndarray1 : Type := list float64.
Definition ndarray2 : Type := list ndarray1.   (* the rows *)

(** [np.linspace(start, stop, num)] with its defaults: [num] samples,
    the end point included.  The function belongs to numpy, not to the
    repository; it is embedded from numpy's implementation, which raises
    ValueError on a negative [num], computes the samples as
    [j * step + start] and then stores [stop] itself in the last place. *)
Definition set_last (y : ndarray1) (v : float64) : ndarray1 :=
  removelast y ++ [v].

Definition np_linspace (start stop : float64) (num : Z) : outcome ndarray1 :=
  if (num <? 0)%Z then Raises ValueError
  else
    let div := (num - 1)%Z in
    let delta := fsub stop start in
    let y := map (fun j => of_int (Z.of_nat j)) (seq 0 (Z.to_nat num)) in
    let y :=
      if (0 <? div)%Z
      then map (fun v => fadd (fmul v (fdiv delta (of_int div))) start) y
      else map (fun v => fadd (fmul v delta) start) y in
    Returns (if (1 <? num)%Z then set_last y stop else y).

(** ** generators.py *)

Definition _generate_x (width samples_per_unit : Z) : outcome ndarray1 :=
  let samples_count := (width * samples_per_unit + 1)%Z in
  let start := fdiv (of_int (- width)) (of_int 2) in
  let stop := fdiv (of_int width) (of_int 2) in
  np_linspace start stop samples_count.

Definition _create_2d_separable_func (func_1d : ndarray1) : ndarray2 :=
  let size := length func_1d in
  map (fun p_x =>
         map (fun p_y => fmul (nth p_x func_1d (Fin 0)) (nth p_y func_1d (Fin 0)))
             (seq 0 size))
      (seq 0 size).

Definition generate_sinc_2d (width samples_per_unit : Z) : outcome ndarray2 :=
  x <- _generate_x width samples_per_unit ;;
  let sincx := map np_sinc x in
  Returns (_create_2d_separable_func sincx).

(** Element-wise product of two arrays of the same size. *)
Definition np_mul (u v : ndarray1) : ndarray1 :=
  map (fun '(a, b) => fmul a b) (combine u v).

(** The array [rect_lanczos]: zeros, with a one wherever [(-a < x) * (x < a)]. *)
Definition rect_lanczos (a : Z) (x : ndarray1) : ndarray1 :=
  map (fun v => if flt (of_int (- a)) v && flt v (of_int a) then Fin 1 else Fin 0) x.

Definition lanczos_1d (x : ndarray1) (a : Z) : ndarray1 :=
  let sincx := map np_sinc x in
  let sincx_a := map np_sinc (map (fun v => fdiv v (of_int a)) x) in
  np_mul (np_mul sincx sincx_a) (rect_lanczos a x).

Definition generate_lanczos_1d (width samples_per_unit a : Z) : outcome ndarray1 :=
  x <- _generate_x width samples_per_unit ;;
  Returns (lanczos_1d x a).

Definition generate_lanczos_2d (width samples_per_unit a : Z) : outcome ndarray2 :=
  lanczos <- generate_lanczos_1d width samples_per_unit a ;;
  Returns (_create_2d_separable_func lanczos).

(** The two polynomial branches of the bicubic profile, in [abs_xi]. *)
Definition bicubic_inner (a abs_xi : float64) : float64 :=
  fadd (fsub (fmul (fmul (fmul (fadd a (of_int 2)) abs_xi) abs_xi) abs_xi)
             (fmul (fmul (fadd a (of_int 3)) abs_xi) abs_xi))
       (of_int 1).

Definition bicubic_outer (a abs_xi : float64) : float64 :=
  fsub (fadd (fsub (fmul (fmul (fmul a abs_xi) abs_xi) abs_xi)
                   (fmul (fmul (fmul (of_int 5) a) abs_xi) abs_xi))
             (fmul (fmul (of_int 8) a) abs_xi))
       (fmul (of_int 4) a).

(** One turn of the loop of [generate_bicubic_1d]: the value stored at [xi]. *)
Definition bicubic_value (a xi : float64) : float64 :=
  let abs_xi := fabs xi in
  if fle abs_xi (of_int 1) then bicubic_inner a abs_xi
  else if flt (of_int 1) abs_xi && fle abs_xi (of_int 2) then bicubic_outer a abs_xi
  else of_int 0.

Definition generate_bicubic_1d (width samples_per_unit : Z) (a : float64)
  : outcome ndarray1 :=
  x <- _generate_x width samples_per_unit ;;
  Returns (map (bicubic_value a) x).

Definition generate_bicubic_2d (width samples_per_unit : Z) (a : float64)
  : outcome ndarray2 :=
  bicubic_1d <- generate_bicubic_1d width samples_per_unit a ;;
  Returns (_create_2d_separable_func bicubic_1d).

(** The two polynomial branches of the cubic B-spline profile, as the program
    writes them. *)
Definition cubicbspline_inner (abs_xi : float64) : float64 :=
  fadd (fsub (fdiv (of_int 2) (of_int 3)) (fmul abs_xi abs_xi))
       (fdiv (fmul (fmul abs_xi abs_xi) abs_xi) (of_int 2)).

Definition cubicbspline_outer (abs_xi : float64) : float64 :=
  fdiv (fsub (of_int 2) (fmul (fmul abs_xi abs_xi) abs_xi)) (of_int 6).

Definition cubicbspline_value (xi : float64) : float64 :=
  let abs_xi := fabs xi in
  if fle (of_int 0) abs_xi && flt abs_xi (of_int 1) then cubicbspline_inner abs_xi
  else if fle (of_int 1) abs_xi && flt abs_xi (of_int 2) then cubicbspline_outer abs_xi
  else of_int 0.

Definition generate_cubicbspline_1d (width samples_per_unit : Z) : outcome ndarray1 :=
  x <- _generate_x width samples_per_unit ;;
  Returns (map cubicbspline_value x).

Definition generate_cubicbspline_2d (width samples_per_unit : Z) : outcome ndarray2 :=
  cubicbspline_1d <- generate_cubicbspline_1d width samples_per_unit ;;
  Returns (_create_2d_separable_func cubicbspline_1d).

(** The value stored at [gaussian_2d[p_x][p_y]]. *)
Definition gaussian_value (factor sigma_squared x_px x_py : float64) : float64 :=
  fmul factor
       (np_exp (fdiv (fneg (fadd (fmul x_px x_px) (fmul x_py x_py)))
                     (fmul (of_int 2) sigma_squared))).

(** [sigma] is a Python float, so the division that computes [factor] is
    Python's and raises on a zero divisor; the ones inside the loop are on
    numpy scalars. *)
Definition generate_gaussian_2d (width samples_per_unit : Z) (sigma : float64)
  : outcome ndarray2 :=
  x <- _generate_x width samples_per_unit ;;
  let sigma_squared := fmul sigma sigma in
  factor <- py_div (of_int 1) (fmul (fmul (of_int 2) np_pi) sigma_squared) ;;
  Returns
    (map (fun p_x =>
            map (fun p_y =>
                   gaussian_value factor sigma_squared
                                  (nth p_x x (Fin 0)) (nth p_y x (Fin 0)))
                (seq 0 (length x)))
         (seq 0 (length x))).

(** ** The store: arrays are objects, [normalize_filter] works on a reference *)

Definition loc : Type := nat.

Record heap : Type := mkHeap { cells : loc -> ndarray2; next_loc : loc }.

Definition load (l : loc) (h : heap) : ndarray2 := cells h l.

Definition store (l : loc) (v : ndarray2) (h : heap) : heap :=
  mkHeap (fun l' => if Nat.eqb l' l then v else cells h l') (next_loc h).

Definition alloc (v : ndarray2) (h : heap) : loc * heap :=
  (next_loc h,
   mkHeap (fun l' => if Nat.eqb l' (next_loc h) then v else cells h l')
          (S (next_loc h))).

(** Row [r] belongs to the slice [start::step]. *)
Definition in_slice (start step r : nat) : bool :=
  (start <=? r)%nat && ((r - start) mod step =? 0)%nat.

Fixpoint select_from {A : Type} (sel : nat -> bool) (n : nat) (l : list A) : list A :=
  match l with
  | [] => []
  | x :: l' =>
      if sel n then x :: select_from sel (S n) l' else select_from sel (S n) l'
  end.

Fixpoint update_from {A : Type} (sel : nat -> bool) (f : A -> A) (n : nat)
  (l : list A) : list A :=
  match l with
  | [] => []
  | x :: l' => (if sel n then f x else x) :: update_from sel f (S n) l'
  end.

(** The rows of [a[start::step]]. *)
Definition slice_rows (start step : nat) (a : ndarray2) : ndarray2 :=
  select_from (in_slice start step) 0 a.

(** [a[start::step] /= d], on the contents of [a]: the slice is a view. *)
Definition idiv_slice (start step : nat) (d : float64) (a : ndarray2) : ndarray2 :=
  update_from (in_slice start step) (map (fun v => fdiv v d)) 0 a.

(** The body of the loop of [normalize_filter], for one [i]. *)
Definition normalize_phase (filter_data : loc) (oversampling : Z) (i : nat)
  (h : heap) : heap :=
  let a := load filter_data h in
  let step := Z.to_nat oversampling in
  let s := np_sum (concat (slice_rows i step a)) in
  store filter_data (idiv_slice i step (fmul s (of_int oversampling)) a) h.

Definition normalize_filter (filter_data : loc) (oversampling : Z) (h : heap)
  : outcome (loc * heap) :=
  Returns (filter_data,
           fold_left (fun h' i => normalize_phase filter_data oversampling i h')
                     (seq 0 (Z.to_nat oversampling)) h).

(** ** cli.py: the caller of [normalize_filter] *)

Module Cli.

Record command_args : Type := mkArgs {
  width : Z;
  samples_per_unit : Z;
  normalize : bool
}.

(** [SincFilterGenerator.generate].  The array that [generate_sinc_2d]
    builds is a new object of the store; [sincx_2d] is the reference to it. *)
Definition SincFilterGenerator_generate (args : command_args) (h : heap)
  : outcome (loc * heap) :=
  sincx_2d_contents <- generate_sinc_2d (width args) (samples_per_unit args) ;;
  let (sincx_2d, h1) := alloc sincx_2d_contents h in
  if normalize args
  then normalize_filter sincx_2d (samples_per_unit args) h1
  else Returns (sincx_2d, h1).

End Cli.

(** ** Closed forms and auxiliary functions of the proofs *)

(** The coordinate of index [j]: [j] steps of [width / (N - 1)] from
    [-width / 2], where [N - 1 = width * samples_per_unit]. *)
Definition grid_point (width samples_per_unit : Z) (j : nat) : R :=
  - IZR width / 2 + INR j * (IZR width / IZR (width * samples_per_unit)).

(** The Lanczos value at a finite coordinate. *)
Definition lanczos_value (a : Z) (x : R) : R :=
  sinc x * sinc (x / IZR a) * (if Rltb (IZR (- a)) x && Rltb x (IZR a) then 1 else 0).

(** The Gaussian of the program, on real numbers. *)
Definition gaussian (sigma x y : R) : R :=
  1 / (2 * PI * sigma ^ 2) * exp (- (x ^ 2 + y ^ 2) / (2 * sigma ^ 2)).

(** A map that knows the index of each element, counted from [n]. *)
Fixpoint mapi_from {A B : Type} (f : nat -> A -> B) (n : nat) (l : list A) : list B :=
  match l with
  | [] => []
  | x :: l' => f n x :: mapi_from f (S n) l'
  end.

(** The first [n] turns of the loop of [normalize_filter]. *)
Definition normalize_loop (filter_data : loc) (oversampling : Z) (n : nat)
  (h : heap) : heap :=
  fold_left (fun h' i => normalize_phase filter_data oversampling i h') (seq 0 n) h.

(** The divisor of phase [i]: the sum of the phase, taken on the array as it
    was before the call, times the oversampling. *)
Definition phase_divisor (a : ndarray2) (oversampling : Z) (i : nat) : float64 :=
  fmul (np_sum (concat (slice_rows i (Z.to_nat oversampling) a))) (of_int oversampling).

(** A row divided by [d], element by element. *)
Definition divide_row (d : float64) (row : ndarray1) : ndarray1 :=
  map (fun v => fdiv v d) row.

(** The array after the first [n] turns: the rows of the phases below [n] are
    divided, the others are as they were. *)
Definition normalized_upto (a : ndarray2) (oversampling : Z) (n : nat) : ndarray2 :=
  mapi_from (fun r row =>
               if (r mod Z.to_nat oversampling <? n)%nat
               then divide_row (phase_divisor a oversampling (r mod Z.to_nat oversampling)) row
               else row) 0 a.


(** ** cli.py: the generators of the other families *)

Module CliFamilies.

(** The parsed arguments of a sub-command: the common ones and its own. *)
Record lanczos_args : Type := mkLanczosArgs {
  lanczos_common : Cli.command_args;
  kernel_size : Z
}.

Record bicubic_args : Type := mkBicubicArgs {
  bicubic_common : Cli.command_args;
  a : float64
}.

Record gaussian_args : Type := mkGaussianArgs {
  gaussian_common : Cli.command_args;
  sigma : float64
}.

Definition LanczosFilterGenerator_generate (args : lanczos_args) (h : heap)
  : outcome (loc * heap) :=
  let common := lanczos_common args in
  lanczos_2d_contents <-
    generate_lanczos_2d (Cli.width common) (Cli.samples_per_unit common)
                        (kernel_size args) ;;
  let (lanczos_2d, h1) := alloc lanczos_2d_contents h in
  if Cli.normalize common
  then normalize_filter lanczos_2d (Cli.samples_per_unit common) h1
  else Returns (lanczos_2d, h1).

Definition BicubicFilterGenerator_generate (args : bicubic_args) (h : heap)
  : outcome (loc * heap) :=
  let common := bicubic_common args in
  bicubic_2d_contents <-
    generate_bicubic_2d (Cli.width common) (Cli.samples_per_unit common) (a args) ;;
  let (bicubic_2d, h1) := alloc bicubic_2d_contents h in
  if Cli.normalize common
  then normalize_filter bicubic_2d (Cli.samples_per_unit common) h1
  else Returns (bicubic_2d, h1).

Definition CubicBSplineFilterGenerator_generate (args : Cli.command_args) (h : heap)
  : outcome (loc * heap) :=
  cubicbspline_2d_contents <-
    generate_cubicbspline_2d (Cli.width args) (Cli.samples_per_unit args) ;;
  let (cubicbspline_2d, h1) := alloc cubicbspline_2d_contents h in
  if Cli.normalize args
  then normalize_filter cubicbspline_2d (Cli.samples_per_unit args) h1
  else Returns (cubicbspline_2d, h1).

Definition GaussianFilterGenerator_generate (args : gaussian_args) (h : heap)
  : outcome (loc * heap) :=
  let common := gaussian_common args in
  gaussian_2d_contents <-
    generate_gaussian_2d (Cli.width common) (Cli.samples_per_unit common)
                         (sigma args) ;;
  let (gaussian_2d, h1) := alloc gaussian_2d_contents h in
  if Cli.normalize common
  then normalize_filter gaussian_2d (Cli.samples_per_unit common) h1
  else Returns (gaussian_2d, h1).

End CliFamilies.

(** ** filters.py: the choice of the generator in [main] *)

Module Filters.

Import Stdlib.Strings.String.

Inductive filter_generator : Type :=
| GaussianFilterGenerator
| SincFilterGenerator
| LanczosFilterGenerator
| BicubicFilterGenerator
| CubicBSplineFilterGenerator.

(** The method [support] of each class, on the attribute [filter] of the
    parsed arguments. *)
Definition support (g : filter_generator) (filter : String.string) : bool :=
  match g with
  | GaussianFilterGenerator => String.eqb filter "gaussian"%string
  | SincFilterGenerator => String.eqb filter "sinc"%string
  | LanczosFilterGenerator => String.eqb filter "lanczos"%string
  | BicubicFilterGenerator => String.eqb filter "bicubic"%string
  | CubicBSplineFilterGenerator => String.eqb filter "cubicbspline"%string
  end.

(** The list [filter_generators] of [main], in its order. *)
Definition filter_generators : list filter_generator :=
  [GaussianFilterGenerator; SincFilterGenerator; LanczosFilterGenerator;
   BicubicFilterGenerator; CubicBSplineFilterGenerator].

(** The loop [for ... if support: break ... else: return] of [main]: the first
    generator that supports the command, or none. *)
Definition select_generator (filter : String.string) : option filter_generator :=
  find (fun g => support g filter) filter_generators.

End Filters.

(** ** The normalizer on real numbers *)



(** ** Shapes and results used in the statements *)


(** The array a [generate] method leaves behind the reference it returns,
    from the kernel [k] of its generator: with the flag [normalize] and a
    positive density, row r divided by the divisor of its phase; else [k]. *)
Definition generate_result (k : ndarray2) (normalize : bool) (samples_per_unit : Z)
  : ndarray2 :=
  if normalize && (0 <? samples_per_unit)%Z
  then mapi_from (fun r row =>
                    divide_row (phase_divisor k samples_per_unit
                                              (r mod Z.to_nat samples_per_unit)) row)
                 0 k
  else k.

(** What a [generate] method does in the store [h], given the outcome [c] of
    its generator: it passes an exception on, or allocates one array, returns
    its reference and changes no other array. *)
Definition generate_spec (c : outcome ndarray2) (normalize : bool)
  (samples_per_unit : Z) (h : heap) (r : outcome (loc * heap)) : Prop :=
  match c with
  | Raises e => r = Raises e
  | Returns k =>
      exists h' : heap,
        r = Returns (next_loc h, h') /\
        next_loc h' = S (next_loc h) /\
        (forall l, l <> next_loc h -> load l h' = load l h) /\
        load (next_loc h) h' = generate_result k normalize samples_per_unit
  end.

(** * Properties *)

(** ** The arithmetic of finite numbers *)

Lemma Reqb_true (x y : R) : x = y -> Reqb x y = true.
Proof. intros H. unfold Reqb. destruct (Req_dec_T x y); [reflexivity | contradiction]. Qed.

Lemma Reqb_false (x y : R) : x <> y -> Reqb x y = false.
Proof. intros H. unfold Reqb. destruct (Req_dec_T x y); [contradiction | reflexivity]. Qed.

Lemma Rltb_true (x y : R) : x < y -> Rltb x y = true.
Proof. intros H. unfold Rltb. destruct (Rlt_dec x y); [reflexivity | contradiction]. Qed.

Lemma Rltb_false (x y : R) : ~ x < y -> Rltb x y = false.
Proof. intros H. unfold Rltb. destruct (Rlt_dec x y); [contradiction | reflexivity]. Qed.

Lemma Rleb_true (x y : R) : x <= y -> Rleb x y = true.
Proof. intros H. unfold Rleb. destruct (Rle_dec x y); [reflexivity | contradiction]. Qed.


Lemma fdiv_fin (a b : R) : b <> 0 -> fdiv (Fin a) (Fin b) = Fin (a / b).
Proof. intros H. simpl. now rewrite (Reqb_false _ _ H). Qed.

Lemma fdiv_zero_zero : fdiv (Fin 0) (Fin 0) = NaN.
Proof. simpl. now rewrite (Reqb_true 0 0 eq_refl). Qed.


Lemma fmul_comm (x y : float64) : fmul x y = fmul y x.
Proof.
  destruct x as [a|s|], y as [b|t|]; simpl; try reflexivity.
  - f_equal. apply Rmult_comm.
  - f_equal. apply xorb_comm.
Qed.


(** ** The separable expander *)

Lemma separable_entry (func_1d : ndarray1) (i j : nat) :
  (i < length func_1d)%nat -> (j < length func_1d)%nat ->
  nth j (nth i (_create_2d_separable_func func_1d) []) (Fin 0)
  = fmul (nth i func_1d (Fin 0)) (nth j func_1d (Fin 0)).
Proof.
  intros Hi Hj. unfold _create_2d_separable_func.
  set (row := fun p_x : nat => _).
  rewrite (nth_indep _ [] (row 0%nat)) by (now rewrite length_map, length_seq).
  rewrite (map_nth row), seq_nth by assumption. subst row. cbv beta.
  set (cell := fun p_y : nat => _).
  rewrite (nth_indep _ (Fin 0) (cell 0%nat)) by (now rewrite length_map, length_seq).
  rewrite (map_nth cell), seq_nth by assumption. reflexivity.
Qed.

Lemma separable_shape (func_1d : ndarray1) :
  length (_create_2d_separable_func func_1d) = length func_1d /\
  Forall (fun row => length row = length func_1d) (_create_2d_separable_func func_1d).
Proof.
  unfold _create_2d_separable_func. split.
  - now rewrite length_map, length_seq.
  - apply Forall_map, Forall_forall. intros p_x _.
    now rewrite length_map, length_seq.
Qed.

(** C7. For a profile of length N, [_create_2d_separable_func] returns N rows
    of N entries, entry (i, j) being profile[i] * profile[j]; so the matrix is
    symmetric and its diagonal holds the squares profile[i] * profile[i]. *)
Theorem create_2d_separable_outer_product (profile : ndarray1) :
  let N := length profile in
  let result := _create_2d_separable_func profile in
  let entry i j := nth j (nth i result []) (Fin 0) in
  let p i := nth i profile (Fin 0) in
  length result = N /\
  Forall (fun row => length row = N) result /\
  forall i j, (i < N)%nat -> (j < N)%nat ->
    entry i j = fmul (p i) (p j) /\
    entry i j = entry j i /\
    entry i i = fmul (p i) (p i).
Proof.
  cbv zeta. split; [apply separable_shape|]. split; [apply separable_shape|].
  intros i j Hi Hj.
  rewrite !separable_entry by assumption.
  repeat split. apply fmul_comm.
Qed.

Lemma create_2d_separable_outer_product_witness :
  let profile := [Fin 2; Fin 3] in
  let result := _create_2d_separable_func profile in
  (0 < 2)%nat /\ (1 < 2)%nat /\
  nth 1 (nth 0 result []) (Fin 0) = fmul (Fin 2) (Fin 3) /\
  nth 1 (nth 0 result []) (Fin 0) = nth 0 (nth 1 result []) (Fin 0).
Proof.
  cbv zeta.
  assert (H0 : (0 < 2)%nat) by lia.
  assert (H1 : (1 < 2)%nat) by lia.
  pose proof (create_2d_separable_outer_product [Fin 2; Fin 3]) as H.
  cbv zeta in H.
  destruct H as (_ & _ & H).
  destruct (H 0%nat 1%nat H0 H1) as (He & Hs & _).
  repeat split; assumption.
Defined.

(** ** The grid builder *)

Lemma map_one {A B : Type} (f : A -> B) (x : A) : map f [x] = [f x].
Proof. reflexivity. Qed.

Lemma set_last_snoc (y : ndarray1) (u v : float64) : set_last (y ++ [u]) v = y ++ [v].
Proof. unfold set_last. now rewrite removelast_last. Qed.




Lemma generate_x_values (width samples_per_unit : Z) :
  (0 < width)%Z -> (0 < samples_per_unit)%Z ->
  _generate_x width samples_per_unit
  = Returns (map (fun j => Fin (grid_point width samples_per_unit j))
                 (seq 0 (Z.to_nat (width * samples_per_unit + 1)))).
Proof.
  intros Hw Hs.
  assert (Hd : (0 < width * samples_per_unit)%Z) by lia.
  assert (Hd' : IZR (width * samples_per_unit) <> 0) by (apply not_0_IZR; lia).
  unfold _generate_x, np_linspace, of_int.
  rewrite !fdiv_fin by lra.
  destruct (Z.ltb_spec (width * samples_per_unit + 1) 0); [lia|].
  replace (width * samples_per_unit + 1 - 1)%Z with (width * samples_per_unit)%Z by lia.
  destruct (Z.ltb_spec 0 (width * samples_per_unit)); [|lia].
  destruct (Z.ltb_spec 1 (width * samples_per_unit + 1)); [|lia].
  f_equal.
  replace (Z.to_nat (width * samples_per_unit + 1))
    with (S (Z.to_nat (width * samples_per_unit))) by lia.
  rewrite seq_S, !map_app, !map_one, set_last_snoc. f_equal.
  - rewrite map_map. apply map_ext. intros j.
    simpl. rewrite (Reqb_false _ _ Hd'). simpl. f_equal.
    unfold grid_point. rewrite <- INR_IZR_INZ, opp_IZR. field. exact Hd'.
  - do 2 f_equal. unfold grid_point.
    rewrite Nat.add_0_l, INR_IZR_INZ, Z2Nat.id by lia. field. exact Hd'.
Qed.









(** ** The kernel evaluators *)

(** Evaluation of an arithmetic expression on finite numbers. *)
Ltac fin_eval :=
  unfold of_int, fsub;
  repeat first [ rewrite fdiv_fin by lra
               | progress cbn [fadd fmul fneg fabs flt fle np_sinc np_exp] ].

Lemma Rabs_ge_cases (x a : R) : a <= Rabs x -> x <= - a \/ a <= x.
Proof. unfold Rabs. destruct (Rcase_abs x); lra. Qed.

Lemma lanczos_1d_fin (xs : list R) (a : Z) :
  a <> 0%Z -> lanczos_1d (map Fin xs) a = map (fun x => Fin (lanczos_value a x)) xs.
Proof.
  intros Ha. assert (Ha' : IZR a <> 0) by now apply not_0_IZR.
  unfold lanczos_1d, np_mul, rect_lanczos.
  induction xs as [|x xs IH]; [reflexivity|].
  cbn [map combine]. rewrite IH. f_equal.
  unfold lanczos_value. fin_eval.
  now destruct (Rltb (IZR (- a)) x && Rltb x (IZR a)).
Qed.

Lemma lanczos_value_inside (a : Z) (x : R) :
  - IZR a < x < IZR a -> lanczos_value a x = sinc x * sinc (x / IZR a).
Proof.
  intros [H1 H2]. unfold lanczos_value.
  rewrite opp_IZR, !Rltb_true by assumption. simpl. ring.
Qed.

Lemma lanczos_value_outside (a : Z) (x : R) :
  IZR a <= Rabs x -> lanczos_value a x = 0.
Proof.
  intros H. unfold lanczos_value. rewrite opp_IZR.
  destruct (Rabs_ge_cases _ _ H).
  - rewrite (Rltb_false (- IZR a) x) by lra. simpl. ring.
  - rewrite (Rltb_false x (IZR a)) by lra. rewrite andb_false_r. ring.
Qed.

(** C5. On the grid of a call, and for a nonzero parameter [a] (the
    parameter of the family is an integer a >= 1), the value of the Lanczos
    profile at a coordinate x is sinc(x) * sinc(x/a) when -a < x < a, and
    exactly 0 when |x| >= a, the two points x = -a and x = a included. *)
Theorem generate_lanczos_1d_values (width samples_per_unit a : Z) (xs : list R) :
  a <> 0%Z ->
  _generate_x width samples_per_unit = Returns (map Fin xs) ->
  exists profile : list R,
    generate_lanczos_1d width samples_per_unit a = Returns (map Fin profile) /\
    length profile = length xs /\
    forall j x, nth_error xs j = Some x ->
      (- IZR a < x < IZR a ->
       nth_error profile j = Some (sinc x * sinc (x / IZR a))) /\
      (IZR a <= Rabs x -> nth_error profile j = Some 0) /\
      (x = - IZR a \/ x = IZR a -> nth_error profile j = Some 0).
Proof.
  intros Ha Hx. exists (map (lanczos_value a) xs).
  unfold generate_lanczos_1d. rewrite Hx. cbn [bind].
  rewrite lanczos_1d_fin, map_map by assumption.
  split; [reflexivity|]. split; [apply length_map|].
  intros j x Hj. rewrite nth_error_map, Hj. cbn [option_map].
  split; [|split].
  - intros H. now rewrite lanczos_value_inside.
  - intros H. now rewrite lanczos_value_outside.
  - intros H. rewrite lanczos_value_outside; [reflexivity|].
    unfold Rabs. destruct (Rcase_abs x); destruct H; lra.
Qed.

Lemma generate_lanczos_1d_values_witness :
  2%Z <> 0%Z /\
  exists profile : list R,
    generate_lanczos_1d 4 1 2 = Returns (map Fin profile) /\
    nth_error profile 0 = Some 0 /\
    nth_error profile 2 = Some (sinc 0 * sinc (0 / 2)).
Proof.
  assert (Ha : 2%Z <> 0%Z) by lia.
  assert (Hw : (0 < 4)%Z) by lia.
  assert (Hs : (0 < 1)%Z) by lia.
  split; [exact Ha|].
  pose proof (generate_x_values 4 1 Hw Hs) as Hx.
  rewrite <- map_map in Hx.
  destruct (generate_lanczos_1d_values 4 1 2 _ Ha Hx) as (profile & Hp & _ & Hv).
  exists profile. split; [exact Hp|]. split.
  - assert (H0 : nth_error (map (grid_point 4 1) (seq 0 (Z.to_nat (4 * 1 + 1)))) 0
                 = Some (- (2))).
    { simpl. f_equal. unfold grid_point. simpl. lra. }
    destruct (Hv 0%nat _ H0) as (_ & _ & Hb). apply Hb. left. reflexivity.
  - assert (H2 : nth_error (map (grid_point 4 1) (seq 0 (Z.to_nat (4 * 1 + 1)))) 2
                 = Some 0).
    { simpl. f_equal. unfold grid_point. simpl. lra. }
    destruct (Hv 2%nat _ H2) as (Hin & _). apply Hin. lra.
Defined.

Lemma cubicbspline_inner_fin (r : R) :
  cubicbspline_inner (Fin r) = Fin (2 / 3 - r ^ 2 + r ^ 3 / 2).
Proof. unfold cubicbspline_inner. fin_eval. f_equal. field. Qed.

Lemma cubicbspline_outer_fin (r : R) :
  cubicbspline_outer (Fin r) = Fin ((2 - r ^ 3) / 6).
Proof. unfold cubicbspline_outer. fin_eval. f_equal. field. Qed.



Lemma cubicbspline_value_inner (x : R) :
  Rabs x < 1 -> cubicbspline_value (Fin x) = Fin (2 / 3 - Rabs x ^ 2 + Rabs x ^ 3 / 2).
Proof.
  intros H. unfold cubicbspline_value. fin_eval.
  rewrite Rleb_true by apply Rabs_pos. rewrite Rltb_true by assumption.
  apply cubicbspline_inner_fin.
Qed.

Lemma cubicbspline_value_outer (x : R) :
  1 <= Rabs x < 2 -> cubicbspline_value (Fin x) = Fin ((2 - Rabs x ^ 3) / 6).
Proof.
  intros [H1 H2]. unfold cubicbspline_value. fin_eval.
  rewrite (Rltb_false (Rabs x) 1) by lra. rewrite andb_false_r.
  rewrite Rleb_true by assumption. rewrite Rltb_true by assumption.
  apply cubicbspline_outer_fin.
Qed.

Lemma cubicbspline_value_far (x : R) :
  2 <= Rabs x -> cubicbspline_value (Fin x) = Fin 0.
Proof.
  intros H. unfold cubicbspline_value. fin_eval.
  rewrite (Rltb_false (Rabs x) 1) by lra. rewrite andb_false_r.
  rewrite (Rltb_false (Rabs x) 2) by lra. rewrite andb_false_r.
  reflexivity.
Qed.




(** ** The Gaussian kernel *)

Lemma map_nth_seq {A B : Type} (F : A -> B) (l : list A) (d : A) :
  map (fun p => F (nth p l d)) (seq 0 (length l)) = map F l.
Proof.
  induction l as [|x l IH]; [reflexivity|].
  cbn [length seq map nth]. f_equal.
  rewrite <- seq_shift, map_map. exact IH.
Qed.

(** The loops of [generate_gaussian_2d] visit every pair of coordinates. *)
Lemma gaussian_loops (factor sigma_squared : float64) (x : ndarray1) :
  map (fun p_x =>
         map (fun p_y =>
                gaussian_value factor sigma_squared
                               (nth p_x x (Fin 0)) (nth p_y x (Fin 0)))
             (seq 0 (length x)))
      (seq 0 (length x))
  = map (fun u => map (fun v => gaussian_value factor sigma_squared u v) x) x.
Proof.
  rewrite (map_nth_seq
             (fun u => map (fun p_y => gaussian_value factor sigma_squared u
                                                      (nth p_y x (Fin 0)))
                           (seq 0 (length x)))).
  apply map_ext. intros u.
  apply (map_nth_seq (fun v => gaussian_value factor sigma_squared u v)).
Qed.

Lemma gaussian_factor (sigma : R) :
  sigma <> 0 ->
  py_div (of_int 1) (fmul (fmul (of_int 2) np_pi) (fmul (Fin sigma) (Fin sigma)))
  = Returns (Fin (1 / (2 * PI * sigma ^ 2))).
Proof.
  intros Hs. pose proof PI_neq0 as Hpi.
  assert (H : 2 * PI * (sigma * sigma) <> 0).
  { apply Rmult_integral_contrapositive_currified.
    - apply Rmult_integral_contrapositive_currified; [lra | exact Hpi].
    - now apply Rmult_integral_contrapositive_currified. }
  unfold np_pi, of_int. cbn [fmul]. unfold py_div.
  rewrite (Reqb_false _ _ H), fdiv_fin by exact H.
  do 2 f_equal. field. now split.
Qed.

Lemma gaussian_value_fin (sigma x y : R) :
  sigma <> 0 ->
  gaussian_value (Fin (1 / (2 * PI * sigma ^ 2))) (fmul (Fin sigma) (Fin sigma))
                 (Fin x) (Fin y)
  = Fin (gaussian sigma x y).
Proof.
  intros Hs.
  assert (H : 2 * (sigma * sigma) <> 0).
  { apply Rmult_integral_contrapositive_currified; [lra|].
    now apply Rmult_integral_contrapositive_currified. }
  unfold gaussian_value, of_int. cbn [fmul fadd fneg].
  rewrite fdiv_fin by exact H. cbn [np_exp fmul].
  unfold gaussian. do 3 f_equal. field. exact Hs.
Qed.

Lemma generate_gaussian_2d_fin (width samples_per_unit : Z) (sigma : R) (xs : list R) :
  sigma <> 0 ->
  _generate_x width samples_per_unit = Returns (map Fin xs) ->
  generate_gaussian_2d width samples_per_unit (Fin sigma)
  = Returns (map (map Fin) (map (fun x => map (gaussian sigma x) xs) xs)).
Proof.
  intros Hs Hx. unfold generate_gaussian_2d. rewrite Hx. cbn [bind].
  rewrite gaussian_factor by assumption. cbn [bind]. f_equal.
  rewrite gaussian_loops, !map_map. apply map_ext. intros x.
  rewrite !map_map. apply map_ext. intros y.
  now apply gaussian_value_fin.
Qed.

Lemma gaussian_centre : gaussian 1 0 0 = 1 / (2 * PI).
Proof.
  unfold gaussian.
  replace (- (0 ^ 2 + 0 ^ 2) / (2 * 1 ^ 2)) with 0 by (field; lra).
  rewrite exp_0. pose proof PI_neq0. field. assumption.
Qed.

(** C8. The Gaussian kernel is evaluated on the 2D grid itself: entry (i, j)
    is 1/(2 pi sigma^2) * exp(-(x^2 + y^2)/(2 sigma^2)) at the coordinates
    x = grid[i], y = grid[j]; and for width 2, density 2 and sigma 1 the kernel
    is 5 by 5 with the value 1/(2 pi) at its centre (2, 2). *)
Theorem generate_gaussian_2d_values :
  (forall (width samples_per_unit : Z) (sigma : R) (xs : list R),
     sigma <> 0 ->
     _generate_x width samples_per_unit = Returns (map Fin xs) ->
     exists kernel : list (list R),
       generate_gaussian_2d width samples_per_unit (Fin sigma)
       = Returns (map (map Fin) kernel) /\
       length kernel = length xs /\
       forall i j x y, nth_error xs i = Some x -> nth_error xs j = Some y ->
         nth_error (nth i kernel []) j
         = Some (1 / (2 * PI * sigma ^ 2)
                 * exp (- (x ^ 2 + y ^ 2) / (2 * sigma ^ 2)))) /\
  (exists kernel : list (list R),
     generate_gaussian_2d 2 2 (of_int 1) = Returns (map (map Fin) kernel) /\
     length kernel = 5%nat /\
     nth_error (nth 2 kernel []) 2 = Some (1 / (2 * PI))).
Proof.
  split.
  - intros width samples_per_unit sigma xs Hs Hx.
    exists (map (fun x => map (gaussian sigma x) xs) xs).
    split; [now apply generate_gaussian_2d_fin|].
    split; [apply length_map|].
    intros i j x y Hi Hj.
    assert (Hrow : nth i (map (fun x => map (gaussian sigma x) xs) xs) []
                   = map (gaussian sigma x) xs).
    { apply nth_error_nth. now rewrite nth_error_map, Hi. }
    rewrite Hrow, nth_error_map, Hj. reflexivity.
  - assert (Hw : (0 < 2)%Z) by lia.
    pose proof (generate_x_values 2 2 Hw Hw) as Hx.
    rewrite <- map_map in Hx.
    eexists. split; [apply generate_gaussian_2d_fin; [lra | exact Hx]|].
    split; [reflexivity|].
    change (Z.to_nat (2 * 2 + 1)) with 5%nat.
    cbn [seq map nth nth_error].
    assert (H0 : grid_point 2 2 2 = 0) by (unfold grid_point; simpl; lra).
    rewrite H0. f_equal. apply gaussian_centre.
Qed.

Lemma generate_gaussian_2d_values_witness :
  1 <> 0 /\
  exists kernel : list (list R),
    generate_gaussian_2d 2 2 (Fin 1) = Returns (map (map Fin) kernel) /\
    length kernel = 5%nat /\
    nth_error (nth 0 kernel []) 4
    = Some (1 / (2 * PI * 1 ^ 2) * exp (- ((- (1)) ^ 2 + 1 ^ 2) / (2 * 1 ^ 2))).
Proof.
  assert (Hs : 1 <> 0) by lra.
  assert (Hw : (0 < 2)%Z) by lia.
  split; [exact Hs|].
  pose proof (generate_x_values 2 2 Hw Hw) as Hx.
  rewrite <- map_map in Hx.
  destruct generate_gaussian_2d_values as (Hall & _).
  destruct (Hall 2%Z 2%Z 1 _ Hs Hx) as (kernel & Hk & Hl & Hv).
  exists kernel. split; [exact Hk|]. split.
  - rewrite Hl, length_map, length_seq. reflexivity.
  - apply Hv.
    + change (Z.to_nat (2 * 2 + 1)) with 5%nat. cbn [seq map nth_error].
      f_equal. unfold grid_point. simpl. lra.
    + change (Z.to_nat (2 * 2 + 1)) with 5%nat. cbn [seq map nth_error].
      f_equal. unfold grid_point. simpl. lra.
Defined.

(** ** The evaluators check no parameter *)







(** ** The phase normalizer *)

(** *** Slices *)

Lemma update_from_mapi {A : Type} (sel : nat -> bool) (f : A -> A) (n : nat) (l : list A) :
  update_from sel f n l = mapi_from (fun r x => if sel r then f x else x) n l.
Proof.
  revert n. induction l as [|x l IH]; intros n; simpl; [reflexivity|].
  now rewrite IH.
Qed.

Lemma mapi_from_compose {A B C : Type} (f : nat -> B -> C) (g : nat -> A -> B)
  (n : nat) (l : list A) :
  mapi_from f n (mapi_from g n l) = mapi_from (fun r x => f r (g r x)) n l.
Proof.
  revert n. induction l as [|x l IH]; intros n; simpl; [reflexivity|].
  now rewrite IH.
Qed.

Lemma mapi_from_ext {A B : Type} (f g : nat -> A -> B) (n : nat) (l : list A) :
  (forall r x, f r x = g r x) -> mapi_from f n l = mapi_from g n l.
Proof.
  intros H. revert n. induction l as [|x l IH]; intros n; simpl; [reflexivity|].
  now rewrite H, IH.
Qed.

Lemma mapi_from_id {A : Type} (n : nat) (l : list A) :
  mapi_from (fun _ x => x) n l = l.
Proof.
  revert n. induction l as [|x l IH]; intros n; simpl; [reflexivity|].
  now rewrite IH.
Qed.

Lemma nth_error_mapi_from {A B : Type} (f : nat -> A -> B) (n r : nat) (l : list A) :
  nth_error (mapi_from f n l) r = option_map (f (n + r)%nat) (nth_error l r).
Proof.
  revert n r. induction l as [|x l IH]; intros n [|r]; simpl; try reflexivity.
  - now rewrite Nat.add_0_r.
  - rewrite IH. now rewrite Nat.add_succ_r.
Qed.

Lemma select_from_mapi {A B : Type} (sel : nat -> bool) (f : nat -> A -> B)
  (g : A -> B) (n : nat) (l : list A) :
  (forall r x, sel r = true -> f r x = g x) ->
  select_from sel n (mapi_from f n l) = map g (select_from sel n l).
Proof.
  intros H. revert n. induction l as [|x l IH]; intros n; simpl; [reflexivity|].
  destruct (sel n) eqn:E; simpl; rewrite IH; [|reflexivity].
  now rewrite H.
Qed.


(** For a phase index below the step, the rows of the slice are those whose
    index is the phase index modulo the step. *)
Lemma in_slice_mod (i p r : nat) :
  (i < p)%nat -> in_slice i p r = (r mod p =? i)%nat.
Proof.
  intros Hi. unfold in_slice.
  destruct (Nat.eqb_spec (r mod p) i) as [E|E].
  - pose proof (Nat.div_mod_eq r p) as Hr. rewrite E in Hr.
    assert (Hle : (i <= r)%nat) by lia.
    apply Nat.leb_le in Hle. rewrite Hle. cbn [andb].
    replace (r - i)%nat with (r / p * p)%nat by lia.
    now rewrite Nat.Div0.mod_mul.
  - destruct (Nat.leb_spec i r) as [Hle|Hlt]; [|reflexivity]. cbn [andb].
    destruct (Nat.eqb_spec ((r - i) mod p) 0) as [E0|E0]; [|reflexivity].
    exfalso. apply E.
    pose proof (Nat.div_mod_eq (r - i) p) as Hr. rewrite E0 in Hr.
    replace r with (i + (r - i) / p * p)%nat by lia.
    rewrite Nat.Div0.mod_add. now apply Nat.mod_small.
Qed.

(** *** The store *)

Lemma load_store_same (l : loc) (v : ndarray2) (h : heap) :
  load l (store l v h) = v.
Proof. unfold load, store. simpl. now rewrite Nat.eqb_refl. Qed.

Lemma load_store_other (l l' : loc) (v : ndarray2) (h : heap) :
  l' <> l -> load l' (store l v h) = load l' h.
Proof.
  intros H. unfold load, store. simpl.
  now destruct (Nat.eqb_spec l' l).
Qed.

(** *** The loop *)

Lemma normalize_loop_S (filter_data : loc) (oversampling : Z) (n : nat) (h : heap) :
  normalize_loop filter_data oversampling (S n) h
  = normalize_phase filter_data oversampling n
                    (normalize_loop filter_data oversampling n h).
Proof.
  unfold normalize_loop. now rewrite seq_S, fold_left_app.
Qed.

Lemma normalize_loop_frame (filter_data : loc) (oversampling : Z) (n : nat) (h : heap) :
  next_loc (normalize_loop filter_data oversampling n h) = next_loc h /\
  forall l, l <> filter_data ->
    load l (normalize_loop filter_data oversampling n h) = load l h.
Proof.
  induction n as [|n [IHn IHl]]; [now split|].
  rewrite normalize_loop_S. split.
  - unfold normalize_phase, store. simpl. exact IHn.
  - intros l Hl. unfold normalize_phase.
    rewrite load_store_other by assumption. now apply IHl.
Qed.

Lemma normalize_loop_contents (filter_data : loc) (oversampling : Z) (n : nat) (h : heap) :
  (n <= Z.to_nat oversampling)%nat ->
  load filter_data (normalize_loop filter_data oversampling n h)
  = normalized_upto (load filter_data h) oversampling n.
Proof.
  set (p := Z.to_nat oversampling). set (a := load filter_data h).
  induction n as [|n IH]; intros Hn.
  - unfold normalize_loop, normalized_upto. simpl. fold a.
    symmetry. apply mapi_from_id.
  - rewrite normalize_loop_S. unfold normalize_phase at 1.
    rewrite load_store_same, IH by lia. fold p.
    assert (Hs : slice_rows n p (normalized_upto a oversampling n) = slice_rows n p a).
    { unfold slice_rows, normalized_upto. fold p.
      rewrite (select_from_mapi _ _ (fun row => row)); [apply map_id|].
      intros r row Hr. rewrite in_slice_mod in Hr by lia.
      apply Nat.eqb_eq in Hr. rewrite Hr, Nat.ltb_irrefl. reflexivity. }
    rewrite Hs. unfold idiv_slice. rewrite update_from_mapi.
    unfold normalized_upto at 1. rewrite mapi_from_compose.
    unfold normalized_upto. apply mapi_from_ext. intros r row. fold p.
    rewrite in_slice_mod by lia.
    destruct (Nat.eqb_spec (r mod p) n) as [E|E].
    + rewrite E, Nat.ltb_irrefl.
      assert (Hlt : (n <? S n)%nat = true) by (apply Nat.ltb_lt; lia).
      rewrite Hlt. reflexivity.
    + destruct (Nat.ltb_spec (r mod p) n) as [Hlt|Hge].
      * assert (Hlt' : (r mod p <? S n)%nat = true) by (apply Nat.ltb_lt; lia).
        now rewrite Hlt'.
      * assert (Hge' : (r mod p <? S n)%nat = false) by (apply Nat.ltb_ge; lia).
        now rewrite Hge'.
Qed.

Lemma normalize_filter_contents (filter_data : loc) (oversampling : Z) (h : heap) :
  (0 < oversampling)%Z ->
  load filter_data (normalize_loop filter_data oversampling (Z.to_nat oversampling) h)
  = mapi_from (fun r row =>
                 divide_row (phase_divisor (load filter_data h) oversampling
                                           (r mod Z.to_nat oversampling)) row)
              0 (load filter_data h).
Proof.
  intros Hp. rewrite normalize_loop_contents by lia.
  unfold normalized_upto. apply mapi_from_ext. intros r row.
  assert (H : (r mod Z.to_nat oversampling <? Z.to_nat oversampling)%nat = true).
  { apply Nat.ltb_lt, Nat.mod_upper_bound. lia. }
  now rewrite H.
Qed.








(** C10. [normalize_filter] works in place.  For p > 0 the reference it
    returns is the one it was given; after the call the array behind that
    reference holds the normalized rows (row r divided by the sum of its
    phase, r mod p, times p); no other array of the store is changed and none
    is allocated. *)
Theorem normalize_filter_in_place (h : heap) (filter_data : loc) (oversampling : Z) :
  (0 < oversampling)%Z ->
  exists h' : heap,
    normalize_filter filter_data oversampling h = Returns (filter_data, h') /\
    (forall r row, nth_error (load filter_data h) r = Some row ->
       let p := Z.to_nat oversampling in
       let s := np_sum (concat (slice_rows (r mod p) p (load filter_data h))) in
       nth_error (load filter_data h') r
       = Some (map (fun v => fdiv v (fmul s (of_int oversampling))) row)) /\
    length (load filter_data h') = length (load filter_data h) /\
    (forall l, l <> filter_data -> load l h' = load l h) /\
    next_loc h' = next_loc h.
Proof.
  intros Hp.
  exists (normalize_loop filter_data oversampling (Z.to_nat oversampling) h).
  split; [reflexivity|].
  pose proof (normalize_filter_contents filter_data oversampling h Hp) as Hc.
  split; [|split; [|split]].
  - intros r row Hr. cbv zeta.
    rewrite Hc, nth_error_mapi_from, Hr. reflexivity.
  - rewrite Hc. generalize 0%nat. generalize (load filter_data h) at 2 3.
    intros a. induction a as [|x a IH]; intros n; simpl; [reflexivity|].
    now rewrite IH.
  - apply normalize_loop_frame.
  - apply normalize_loop_frame.
Qed.

Lemma normalize_filter_in_place_witness :
  let h := mkHeap (fun l => if Nat.eqb l 0 then [[Fin 1; Fin 3]] else [[Fin 5]]) 2%nat in
  (0 < 1)%Z /\
  exists h' : heap,
    normalize_filter 0%nat 1 h = Returns (0%nat, h') /\
    load 0%nat h' = [[fdiv (Fin 1) (Fin ((1 + (3 + 0)) * 1));
                  fdiv (Fin 3) (Fin ((1 + (3 + 0)) * 1))]] /\
    load 1%nat h' = [[Fin 5]] /\
    next_loc h' = 2%nat.
Proof.
  cbv zeta.
  assert (Hp : (0 < 1)%Z) by lia.
  split; [exact Hp|].
  set (h := mkHeap (fun l => if Nat.eqb l 0 then [[Fin 1; Fin 3]] else [[Fin 5]]) 2%nat).
  destruct (normalize_filter_in_place h 0%nat 1 Hp) as (h' & Hr & Hrow & Hlen & Hfr & Hn).
  exists h'. split; [exact Hr|]. split; [|split].
  - assert (H0 : nth_error (load 0%nat h) 0 = Some [Fin 1; Fin 3]) by reflexivity.
    specialize (Hrow 0%nat _ H0). cbv zeta in Hrow.
    destruct (load 0%nat h') as [|row0 [|row1 rest]]; simpl in Hlen; try discriminate.
    simpl in Hrow. injection Hrow as ->. reflexivity.
  - apply (Hfr 1%nat). discriminate.
  - exact Hn.
Defined.





(** The caller in cli.py gets back the reference of the array that
    [generate_sinc_2d] allocated: one allocation, and nothing else touched. *)
Lemma sinc_generate_same_object (args : Cli.command_args) (h : heap) (k : ndarray2) :
  generate_sinc_2d (Cli.width args) (Cli.samples_per_unit args) = Returns k ->
  exists h' : heap,
    Cli.SincFilterGenerator_generate args h = Returns (next_loc h, h') /\
    next_loc h' = S (next_loc h) /\
    forall l, l <> next_loc h -> load l h' = load l h.
Proof.
  intros Hk. unfold Cli.SincFilterGenerator_generate. rewrite Hk. cbn [bind alloc].
  destruct (Cli.normalize args).
  - eexists. split; [reflexivity|].
    destruct (normalize_loop_frame (next_loc h) (Cli.samples_per_unit args)
                (Z.to_nat (Cli.samples_per_unit args))
                (mkHeap (fun l' => if Nat.eqb l' (next_loc h) then k else cells h l')
                        (S (next_loc h)))) as (Hn & Hf).
    split; [exact Hn|].
    intros l Hl. unfold normalize_loop in Hf. rewrite Hf by assumption.
    unfold load. simpl. now destruct (Nat.eqb_spec l (next_loc h)).
  - eexists. split; [reflexivity|]. split; [reflexivity|].
    intros l Hl. unfold load. simpl. now destruct (Nat.eqb_spec l (next_loc h)).
Qed.

(** * Further properties of the code *)

(** ** Degenerate grids *)



(** ** Symmetry of the profiles *)









(** ** Values of the cubic profiles *)

Lemma profile_entry (F : float64 -> float64) (xs profile : list R) (j : nat) (x v : R) :
  map F (map Fin xs) = map Fin profile ->
  nth_error xs j = Some x -> nth_error profile j = Some v ->
  F (Fin x) = Fin v.
Proof.
  intros H Hx Hv. apply (f_equal (fun l => nth_error l j)) in H.
  rewrite map_map, !nth_error_map, Hx, Hv in H. cbn [option_map] in H.
  now injection H.
Qed.




Lemma cubicbspline_profile_finite (width samples_per_unit : Z) (xs : list R) :
  _generate_x width samples_per_unit = Returns (map Fin xs) ->
  exists spline : list R,
    generate_cubicbspline_1d width samples_per_unit = Returns (map Fin spline).
Proof.
  intros Hx. unfold generate_cubicbspline_1d. rewrite Hx. cbn [bind].
  exists (map (fun x => match cubicbspline_value (Fin x) with
                        | Fin r => r
                        | _ => 0
                        end) xs).
  f_equal. rewrite !map_map. apply map_ext. intros x.
  destruct (Rlt_le_dec (Rabs x) 1); [|destruct (Rlt_le_dec (Rabs x) 2)].
  - now rewrite cubicbspline_value_inner.
  - now rewrite cubicbspline_value_outer by lra.
  - now rewrite cubicbspline_value_far.
Qed.

(** X4. On the grid of a call, every value of the cubic B-spline profile lies
    in (-1, 2/3]; it is negative exactly at the coordinates with |x| < 2 and
    |x|^3 > 2, where the outer branch (2 - |x|^3)/6 of the program is below
    zero. *)
Theorem cubicbspline_range (width samples_per_unit : Z) (xs spline : list R) :
  _generate_x width samples_per_unit = Returns (map Fin xs) ->
  generate_cubicbspline_1d width samples_per_unit = Returns (map Fin spline) ->
  forall j x v, nth_error xs j = Some x -> nth_error spline j = Some v ->
    - 1 < v <= 2 / 3 /\
    (v < 0 <-> Rabs x < 2 /\ 2 < Rabs x ^ 3).
Proof.
  intros Hx Hsp j x v Hj Hv.
  unfold generate_cubicbspline_1d in Hsp. rewrite Hx in Hsp. cbn [bind] in Hsp.
  injection Hsp as Hsp.
  pose proof (profile_entry _ _ _ _ _ _ Hsp Hj Hv) as E.
  pose proof (Rabs_pos x) as Hr. set (r := Rabs x) in *.
  destruct (Rlt_le_dec r 1) as [H1|H1]; [|destruct (Rlt_le_dec r 2) as [H2|H2]].
  - rewrite cubicbspline_value_inner in E by assumption. fold r in E.
    injection E as <-.
    assert (Hlow : 1 / 6 < 2 / 3 - r ^ 2 + r ^ 3 / 2).
    { replace (2 / 3 - r ^ 2 + r ^ 3 / 2) with (1 / 6 + (1 - r) * (1 + r * (1 - r)) / 2)
        by field.
      assert (0 < (1 - r) * (1 + r * (1 - r))); [|lra].
      apply Rmult_lt_0_compat; [lra|]. 
      assert (0 <= r * (1 - r)) by (apply Rmult_le_pos; lra). lra. }
    assert (Hup : 2 / 3 - r ^ 2 + r ^ 3 / 2 <= 2 / 3).
    { replace (2 / 3 - r ^ 2 + r ^ 3 / 2) with (2 / 3 - r * r * (1 - r / 2)) by field.
      assert (0 <= r * r * (1 - r / 2)); [|lra].
      apply Rmult_le_pos; [apply Rmult_le_pos; lra | lra]. }
    assert (Hc : r ^ 3 < 1).
    { replace (r ^ 3) with (r * (r * r)) by ring.
      assert (r * r < 1) by nra. nra. }
    repeat split; try lra.
  - rewrite cubicbspline_value_outer in E by (fold r; lra). fold r in E.
    injection E as <-.
    assert (Hc : r ^ 3 < 8).
    { replace (r ^ 3) with (r * (r * r)) by ring.
      assert (r * r < 4) by nra. nra. }
    assert (Hc' : 1 <= r ^ 3).
    { replace (r ^ 3) with (r * (r * r)) by ring.
      assert (1 <= r * r) by nra. nra. }
    repeat split; try lra.
  - rewrite cubicbspline_value_far in E by (fold r; lra).
    injection E as <-. repeat split; try lra.
Qed.

Lemma cubicbspline_range_witness :
  exists spline : list R,
    generate_cubicbspline_1d 2 1 = Returns (map Fin spline) /\
    forall v, nth_error spline 2 = Some v -> - 1 < v <= 2 / 3.
Proof.
  assert (Hw : (0 < 2)%Z) by lia.
  assert (Hs : (0 < 1)%Z) by lia.
  pose proof (generate_x_values 2 1 Hw Hs) as Hx.
  rewrite <- map_map in Hx.
  destruct (cubicbspline_profile_finite 2 1 _ Hx) as (spline & Hsp).
  exists spline. split; [exact Hsp|].
  intros v Hv.
  assert (H2 : nth_error (map (grid_point 2 1) (seq 0 (Z.to_nat (2 * 1 + 1)))) 2
               = Some 1).
  { simpl. f_equal. unfold grid_point. simpl. lra. }
  apply (cubicbspline_range 2 1 _ _ Hx Hsp 2%nat 1 v H2 Hv).
Defined.

(** ** The 2D kernels *)










(** ** The Gaussian kernel: bounds *)




(** ** Failures of the generators *)







(** ** The phase normalizer: shape, total, repetition, scale *)

(** X9. [normalize_filter] returns for every array and every oversampling,
    and keeps the shape of the array: the number of rows and the length of
    each row.  For an oversampling that is not positive the loop has no turn
    and the store is left as it was. *)
Theorem normalize_filter_shape (h : heap) (filter_data : loc) (oversampling : Z) :
  exists h' : heap,
    normalize_filter filter_data oversampling h = Returns (filter_data, h') /\
    length (load filter_data h') = length (load filter_data h) /\
    (forall r, length (nth r (load filter_data h') [])
               = length (nth r (load filter_data h) [])) /\
    ((oversampling <= 0)%Z -> h' = h).
Proof.
  exists (normalize_loop filter_data oversampling (Z.to_nat oversampling) h).
  split; [reflexivity|].
  destruct (Z.lt_ge_cases 0 oversampling) as [Hp|Hp].
  - pose proof (normalize_filter_contents filter_data oversampling h Hp) as Hc.
    assert (Hn : forall r,
               nth_error (load filter_data
                            (normalize_loop filter_data oversampling
                                            (Z.to_nat oversampling) h)) r
               = option_map
                   (divide_row (phase_divisor (load filter_data h) oversampling
                                              (r mod Z.to_nat oversampling)))
                   (nth_error (load filter_data h) r)).
    { intros r. rewrite Hc. apply nth_error_mapi_from. }
    split; [|split; [|lia]].
    + rewrite Hc. generalize 0%nat. generalize (load filter_data h) at 2 3.
      intros a. induction a as [|x a IH]; intros n; simpl; [reflexivity|].
      now rewrite IH.
    + intros r. specialize (Hn r).
      destruct (nth_error (load filter_data h) r) as [row|] eqn:E.
      * cbn [option_map] in Hn.
        rewrite (nth_error_nth _ _ _ Hn), (nth_error_nth _ _ _ E).
        unfold divide_row. apply length_map.
      * cbn [option_map] in Hn.
        apply nth_error_None in Hn, E.
        now rewrite !nth_overflow.
  - replace (Z.to_nat oversampling) with 0%nat by lia.
    unfold normalize_loop. simpl. repeat split; reflexivity.
Qed.

Lemma normalize_filter_shape_witness :
  let h := mkHeap (fun _ => [[Fin 1; Fin 2]]) 1%nat in
  exists h' : heap, normalize_filter 0%nat (-3) h = Returns (0%nat, h') /\ h' = h.
Proof.
  cbv zeta.
  destruct (normalize_filter_shape (mkHeap (fun _ => [[Fin 1; Fin 2]]) 1%nat) 0%nat (-3))
    as (h' & Hr & _ & _ & Hz).
  exists h'. split; [exact Hr|]. apply Hz. lia.
Defined.

(** *** The result on real numbers *)







(** *** The phases partition the rows *)

















(** ** cli.py: what [generate] returns *)

Lemma generate_pattern (c : outcome ndarray2) (normalize : bool)
  (samples_per_unit : Z) (h : heap) :
  generate_spec c normalize samples_per_unit h
    (contents <- c ;;
     let (l, h1) := alloc contents h in
     if normalize then normalize_filter l samples_per_unit h1 else Returns (l, h1)).
Proof.
  unfold generate_spec. destruct c as [k|e]; [|reflexivity]. cbn [bind alloc].
  set (h1 := mkHeap _ _).
  assert (Hl : load (next_loc h) h1 = k).
  { unfold load, h1. simpl. now rewrite Nat.eqb_refl. }
  assert (Hf : forall l, l <> next_loc h -> load l h1 = load l h).
  { intros l Hne. unfold load, h1. simpl. now destruct (Nat.eqb_spec l (next_loc h)). }
  unfold generate_result. destruct normalize; cbn [andb].
  - exists (normalize_loop (next_loc h) samples_per_unit (Z.to_nat samples_per_unit) h1).
    destruct (normalize_loop_frame (next_loc h) samples_per_unit
                (Z.to_nat samples_per_unit) h1) as (Hn & Hfr).
    split; [reflexivity|]. split; [exact Hn|]. split.
    + intros l Hne. rewrite Hfr by assumption. now apply Hf.
    + destruct (Z.ltb_spec 0 samples_per_unit) as [Hp|Hp].
      * rewrite normalize_filter_contents by assumption. now rewrite Hl.
      * replace (Z.to_nat samples_per_unit) with 0%nat by lia. exact Hl.
  - exists h1. repeat split; assumption.
Qed.

(** X13. Each of the five [generate] methods of cli.py passes on the
    exception of its generator, or else allocates exactly one array, returns
    the reference to it and changes no other array of the store; that array is
    the kernel of the generator, with its rows divided phase by phase for the
    oversampling [samples_per_unit] when the flag [normalize] is set. *)
Theorem generate_methods (common : Cli.command_args) (kernel_size : Z)
  (a sigma : float64) (h : heap) :
  let width := Cli.width common in
  let samples_per_unit := Cli.samples_per_unit common in
  let normalize := Cli.normalize common in
  generate_spec (generate_sinc_2d width samples_per_unit) normalize samples_per_unit h
    (Cli.SincFilterGenerator_generate common h) /\
  generate_spec (generate_lanczos_2d width samples_per_unit kernel_size)
    normalize samples_per_unit h
    (CliFamilies.LanczosFilterGenerator_generate
       (CliFamilies.mkLanczosArgs common kernel_size) h) /\
  generate_spec (generate_bicubic_2d width samples_per_unit a)
    normalize samples_per_unit h
    (CliFamilies.BicubicFilterGenerator_generate
       (CliFamilies.mkBicubicArgs common a) h) /\
  generate_spec (generate_cubicbspline_2d width samples_per_unit)
    normalize samples_per_unit h
    (CliFamilies.CubicBSplineFilterGenerator_generate common h) /\
  generate_spec (generate_gaussian_2d width samples_per_unit sigma)
    normalize samples_per_unit h
    (CliFamilies.GaussianFilterGenerator_generate
       (CliFamilies.mkGaussianArgs common sigma) h).
Proof.
  cbv zeta. repeat split; apply generate_pattern.
Qed.

(** ** filters.py: the choice of the generator *)

(** X14. In [main], the generator chosen for a command is one that supports
    it and the only one that does, so the order of the list does not matter;
    none is chosen exactly when no generator supports the command. *)
Theorem select_generator_unique (filter : String.string) :
  match Filters.select_generator filter with
  | Some g =>
      Filters.support g filter = true /\
      forall g', Filters.support g' filter = true -> g' = g
  | None => forall g, Filters.support g filter = false
  end.
Proof.
  unfold Filters.select_generator, Filters.filter_generators. cbn [find Filters.support].
  repeat match goal with
         | |- context [String.eqb filter ?s] =>
             destruct (String.eqb_spec filter s) as [->|?];
             [split; [reflexivity|]; intros [] H; (reflexivity || discriminate H)|]
         end.
  intros []; cbn [Filters.support]; now apply String.eqb_neq.
Qed.

Module FiltersExamples.

Import Stdlib.Strings.String.

Lemma select_generator_unique_witness :
  Filters.select_generator "sinc" = Some Filters.SincFilterGenerator /\
  (forall g', Filters.support g' "sinc" = true -> g' = Filters.SincFilterGenerator) /\
  Filters.select_generator "tukey" = None /\
  (forall g, Filters.support g "tukey" = false).
Proof.
  pose proof (select_generator_unique "sinc") as Hs.
  pose proof (select_generator_unique "tukey") as Ht.
  assert (Es : Filters.select_generator "sinc" = Some Filters.SincFilterGenerator)
    by reflexivity.
  assert (Et : Filters.select_generator "tukey" = None) by reflexivity.
  rewrite Es in Hs. rewrite Et in Ht.
  split; [exact Es|]. split; [apply Hs|]. split; [exact Et | exact Ht].
Defined.

End FiltersExamples.

(** ** The Lanczos profile at the integers *)


